(** * Reply encoding of the FUSE connection core (package fuse, ops.go)

    A shallow embedding of [kernelResponse] and [kernelResponseForOp]: the
    functions that turn an op, once the file system has answered it, into the
    reply frame written to the kernel.  Reply frames are byte slices; kernel
    structs are overlaid on them, so integers are stored in little-endian
    bytes and read back from them. *)

From Stdlib Require Import ZArith String List Lia Bool Arith.
From Stdlib Require Import Strings.Byte.
Import ListNotations.
Local Open Scope Z_scope.

(** ** Machine integers *)

Module GoInt.

(** Conversion to uint32, uint64 and int32: the value keeps its low bits. *)
Definition uint32 (z : Z) : Z := z mod 2 ^ 32.
Definition uint64 (z : Z) : Z := z mod 2 ^ 64.
Definition int32 (z : Z) : Z := (z + 2 ^ 31) mod 2 ^ 32 - 2 ^ 31.

(** Unary minus on an int32 wraps around like every int32 operation. *)
Definition neg_int32 (z : Z) : Z := int32 (- z).

End GoInt.
Export GoInt.

(** ** Bytes in memory *)

Module Mem.

Definition byte_of_Z (z : Z) : byte :=
  match Byte.of_N (Z.to_N (z mod 256)) with
  | Some b => b
  | None => x00
  end.

Definition Z_of_byte (b : byte) : Z := Z.of_N (Byte.to_N b).

(** The [n] low bytes of [z], least significant first. *)
Fixpoint le_bytes (n : nat) (z : Z) : list byte :=
  match n with
  | O => []
  | S n' => byte_of_Z z :: le_bytes n' (z / 256)
  end.

Fixpoint le_value (bs : list byte) : Z :=
  match bs with
  | [] => 0
  | b :: bs' => Z_of_byte b + 256 * le_value bs'
  end.

Definition zeros (n : nat) : list byte := repeat x00 n.

(** [load off n mem]: the [n] bytes of [mem] from offset [off] on. *)
Definition load (off n : nat) (mem : list byte) : list byte :=
  firstn n (skipn off mem).

(** [store off src mem]: [mem] with [src] written from offset [off] on.  A
    write through a pointer never changes the size of the memory it points
    into: what does not fit is left out. *)
Definition store (off : nat) (src mem : list byte) : list byte :=
  firstn off mem ++ firstn (length mem - off) src ++ skipn (off + length src) mem.

End Mem.
Export Mem.

(** ** Errors and panics *)

(** A Go [error] value that is not nil: a [syscall.Errno] (an unsigned
    machine word) or a value of any other error type. *)
Inductive error : Type :=
| Errno (errno : Z)
| otherError (message : string).

(** Errno numbers of package syscall on Linux. *)
Definition EIO : Z := 5.
Definition ENOSYS : Z := 38.

Inductive panic : Type :=
| UnknownOpPanic              (* panic(fmt.Sprintf("Unknown op: %#v", op)) *)
| RuntimePanic (what : string).

Inductive result (A : Type) : Type :=
| Ok (a : A)
| Panic (p : panic).
Arguments Ok {A} a.
Arguments Panic {A} p.

Definition bind {A B : Type} (r : result A) (k : A -> result B) : result B :=
  match r with
  | Ok a => k a
  | Panic p => Panic p
  end.

Notation "x <- r ;; k" := (bind r (fun x => k))
  (at level 61, r at next level, right associativity).
Notation "' pat <- r ;; k" := (bind r (fun x => match x with pat => k end))
  (at level 61, pat pattern, r at next level, right associativity).

(** ** Package fusekernel *)

Module fusekernel.

Record Protocol : Type := mkProtocol { Major : Z; Minor : Z }.

(** Modelled from the spec: the declaration of [fusekernel.OutHeader] is
    not among the sources.  The reply header is the fixed-size prefix of
    every outbound frame, 16 bytes: total length, error code (negative
    errno, zero on success), unique id echoing the request; integers in
    little-endian host layout. *)
Record OutHeader : Type := mkOutHeader { Len : Z; Error : Z; Unique : Z }.

Definition sizeof_OutHeader : nat := 16.
Definition offsetof_Len : nat := 0.
Definition offsetof_Error : nat := 4.
Definition offsetof_Unique : nat := 8.

Definition encode_OutHeader (h : OutHeader) : list byte :=
  le_bytes 4 (Len h) ++ le_bytes 4 (Error h) ++ le_bytes 8 (Unique h).

Definition decode_OutHeader (frame : list byte) : OutHeader :=
  {| Len := le_value (load offsetof_Len 4 frame);
     Error := int32 (le_value (load offsetof_Error 4 frame));
     Unique := le_value (load offsetof_Unique 8 frame) |}.

(** Modelled from the spec: the declarations of [OpenOut], [WriteOut],
    [StatfsOut] and [InitOut] are not among the sources; their sizes and
    field offsets are those of the kernel's fuse_open_out, fuse_write_out,
    fuse_statfs_out and fuse_init_out, with which the spec requires
    bit-exact compatibility. *)
Definition sizeof_OpenOut : nat := 16.
Definition offsetof_OpenOut_Fh : nat := 0.

Definition sizeof_WriteOut : nat := 8.
Definition offsetof_WriteOut_Size : nat := 0.

Definition sizeof_StatfsOut : nat := 80.

Definition sizeof_InitOut : nat := 24.
Definition offsetof_InitOut_Major : nat := 0.
Definition offsetof_InitOut_Minor : nat := 4.
Definition offsetof_InitOut_MaxReadahead : nat := 8.
Definition offsetof_InitOut_Flags : nat := 12.
Definition offsetof_InitOut_MaxWrite : nat := 20.

(** The init reply as the kernel reads it: the two 16-bit words between
    the flags and the maximum write size are the congestion thresholds. *)
Record InitOut : Type := mkInitOut {
  InitOut_Major : Z;
  InitOut_Minor : Z;
  InitOut_MaxReadahead : Z;
  InitOut_Flags : Z;
  InitOut_MaxBackground : Z;
  InitOut_CongestionThreshold : Z;
  InitOut_MaxWrite : Z
}.

Definition encode_InitOut (o : InitOut) : list byte :=
  le_bytes 4 (InitOut_Major o) ++ le_bytes 4 (InitOut_Minor o) ++
  le_bytes 4 (InitOut_MaxReadahead o) ++ le_bytes 4 (InitOut_Flags o) ++
  le_bytes 2 (InitOut_MaxBackground o) ++
  le_bytes 2 (InitOut_CongestionThreshold o) ++
  le_bytes 4 (InitOut_MaxWrite o).

(** AttrOut starts with the validity of the attributes; the attributes
    follow. *)
Definition offsetof_AttrOut_AttrValid : nat := 0.
Definition offsetof_AttrOut_AttrValidNsec : nat := 8.
Definition offsetof_AttrOut_Attr : nat := 16.

End fusekernel.
Export fusekernel.

(** ** Package buffer *)

Module buffer.

(** Modelled from the spec: package internal/buffer is not among the
    sources.  An out message is a contiguous byte region made of a header
    prefix and a payload area, with an append cursor.  The region is kept
    whole in [storage], the cursor is [len]: the message so far is the first
    [len] bytes.  The zero value holds the nil slice: it is what
    [kernelResponseForOp] returns for an op that requires no response. *)
Record OutMessage : Type := mkOutMessage {
  storage : option (list byte);   (* None: the nil slice *)
  len : nat                       (* the append cursor *)
}.

Definition zero : OutMessage := {| storage := None; len := 0 |}.

(** Modelled from the spec: [NewOutMessage] yields a buffer with room for the
    reply header followed by [extra] bytes of payload.  Like every allocation
    in Go the region starts out zeroed; the message starts as the header. *)
Definition NewOutMessage (extra : nat) : OutMessage :=
  {| storage := Some (zeros (sizeof_OutHeader + extra)); len := sizeof_OutHeader |}.

Definition cap (b : OutMessage) : nat :=
  match storage b with
  | Some mem => length mem
  | None => O
  end.

(** Modelled from the spec: [Bytes] returns the fully-formed reply frame,
    header included. *)
Definition Bytes (b : OutMessage) : option (list byte) :=
  option_map (firstn (len b)) (storage b).

(** Modelled from the spec: [Grow] returns a region of [size] bytes appended
    after what the message holds, to overlay a struct on.  The region is given
    by its offset, returned together with the grown buffer; growing past the
    room asked for is a slice out of bounds. *)
Definition Grow (size : nat) (b : OutMessage) : result (nat * OutMessage) :=
  if (len b + size <=? cap b)%nat
  then Ok (len b, {| storage := storage b; len := (len b + size)%nat |})
  else Panic (RuntimePanic "slice bounds out of range").

(** A write of [src] through a pointer to offset [p] of the buffer. *)
Definition poke (p : nat) (src : list byte) (b : OutMessage) : result OutMessage :=
  match storage b with
  | Some mem => Ok {| storage := Some (store p src mem); len := len b |}
  | None => Panic (RuntimePanic "nil pointer dereference")
  end.

(** A function that fills the struct overlaid at offset [p]: it sees the
    memory from [p] on and leaves its new contents. *)
Definition overlay (p : nat) (fill : list byte -> list byte) (b : OutMessage)
  : result OutMessage :=
  match storage b with
  | Some mem => poke p (fill (skipn p mem)) b
  | None => Panic (RuntimePanic "nil pointer dereference")
  end.

(** Modelled from the spec: [Append] copies bytes to the end of the
    message. *)
Definition Append (p : list byte) (b : OutMessage) : result OutMessage :=
  '(dst, b') <- Grow (length p) b ;;
  poke dst p b'.

(** Modelled from the spec: [AppendString] appends without a trailing NUL. *)
Definition AppendString (s : string) (b : OutMessage) : result OutMessage :=
  Append (list_byte_of_string s) b.

(** Modelled from the spec: [OutHeader] is the mutable header prefix; these
    are the assignments to its fields. *)
Definition set_Len (v : Z) (b : OutMessage) : result OutMessage :=
  poke offsetof_Len (le_bytes 4 v) b.

Definition set_Error (v : Z) (b : OutMessage) : result OutMessage :=
  poke offsetof_Error (le_bytes 4 v) b.

Definition set_Unique (v : Z) (b : OutMessage) : result OutMessage :=
  poke offsetof_Unique (le_bytes 8 v) b.

End buffer.
Export buffer.

(** ** Package fuseops and the conversions of package fuse *)

Definition InodeID : Type := Z.
Definition HandleID : Type := Z.

(** What ops.go uses of the rest of the repository and is not among the
    sources, taken as parameters: the types [fuseops.ChildInodeEntry],
    [fuseops.InodeAttributes] and [time.Time], the version-dependent sizes
    [fusekernel.EntryOutSize] and [fusekernel.AttrOutSize], and the functions
    of conversions.go.  A conversion that fills a struct through a pointer is
    a function from the memory the pointer designates to its new contents. *)
Class Deps : Type := {
  ChildInodeEntry : Type;
  InodeAttributes : Type;
  Time : Type;
  EntryOutSize : Protocol -> nat;
  AttrOutSize : Protocol -> nat;
  convertChildInodeEntry : ChildInodeEntry -> list byte -> list byte;
  convertExpirationTime : Time -> Z * Z;
  convertAttributes : InodeID -> InodeAttributes -> list byte -> list byte
}.

(** The dynamic value of the [op interface{}] argument.  The ops are passed
    as pointers to structs, taken here not to be nil; each constructor
    carries the fields of the struct that the encoding reads.  [unknownOp] is
    the sentinel of ops.go; [otherValue] stands for a value of any other
    dynamic type, by the name of the type. *)
Inductive Op {D : Deps} : Type :=
| LookUpInodeOp (Entry : ChildInodeEntry)
| GetInodeAttributesOp (Inode : InodeID) (Attributes : InodeAttributes)
    (AttributesExpiration : Time)
| SetInodeAttributesOp (Inode : InodeID) (Attributes : InodeAttributes)
    (AttributesExpiration : Time)
| ForgetInodeOp
| MkDirOp (Entry : ChildInodeEntry)
| CreateFileOp (Entry : ChildInodeEntry) (Handle : HandleID)
| CreateSymlinkOp (Entry : ChildInodeEntry)
| RenameOp
| RmDirOp
| UnlinkOp
| OpenDirOp (Handle : HandleID)
| ReadDirOp (Data : list byte)
| ReleaseDirHandleOp
| OpenFileOp (Handle : HandleID)
| ReadFileOp (Data : list byte)
| WriteFileOp (Data : list byte)
| SyncFileOp
| FlushFileOp
| ReleaseFileHandleOp
| ReadSymlinkOp (Target : string)
| internalStatFSOp
| internalInterruptOp (FuseID : Z)
| internalInitOp (Kernel Library : Protocol) (MaxReadahead : Z) (Flags : Z)
    (MaxWrite : Z)
| unknownOp (opCode : Z) (inode : InodeID)
| otherValue (dynamicType : string).

(** ** ops.go *)

Section Ops.
Context {D : Deps}.

(** The cases of the type switch of [kernelResponseForOp]. *)
Definition recognised (op : Op) : bool :=
  match op with
  | unknownOp _ _ | otherValue _ => false
  | _ => true
  end.

(** The ops for which the kernel expects no reply. *)
Definition noResponse (op : Op) : bool :=
  match op with
  | ForgetInodeOp | internalInterruptOp _ => true
  | _ => false
  end.

(** Like [kernelResponse], for an op that the user answered with a nil
    error.  The result is the zero message, whose bytes are the nil slice,
    when no response is required. *)
Definition kernelResponseForOp (op : Op) (protocol : Protocol) : result OutMessage :=
  match op with
  | LookUpInodeOp Entry =>
      let size := EntryOutSize protocol in
      let b := NewOutMessage size in
      '(out, b) <- Grow size b ;;
      overlay out (convertChildInodeEntry Entry) b

  | GetInodeAttributesOp Inode Attributes AttributesExpiration =>
      let size := AttrOutSize protocol in
      let b := NewOutMessage size in
      '(out, b) <- Grow size b ;;
      let '(AttrValid, AttrValidNsec) := convertExpirationTime AttributesExpiration in
      b <- poke (out + offsetof_AttrOut_AttrValid) (le_bytes 8 AttrValid) b ;;
      b <- poke (out + offsetof_AttrOut_AttrValidNsec) (le_bytes 4 AttrValidNsec) b ;;
      overlay (out + offsetof_AttrOut_Attr) (convertAttributes Inode Attributes) b

  | SetInodeAttributesOp Inode Attributes AttributesExpiration =>
      let size := AttrOutSize protocol in
      let b := NewOutMessage size in
      '(out, b) <- Grow size b ;;
      let '(AttrValid, AttrValidNsec) := convertExpirationTime AttributesExpiration in
      b <- poke (out + offsetof_AttrOut_AttrValid) (le_bytes 8 AttrValid) b ;;
      b <- poke (out + offsetof_AttrOut_AttrValidNsec) (le_bytes 4 AttrValidNsec) b ;;
      overlay (out + offsetof_AttrOut_Attr) (convertAttributes Inode Attributes) b

  | ForgetInodeOp =>
      (* No response. *)
      Ok zero

  | MkDirOp Entry =>
      let size := EntryOutSize protocol in
      let b := NewOutMessage size in
      '(out, b) <- Grow size b ;;
      overlay out (convertChildInodeEntry Entry) b

  | CreateFileOp Entry Handle =>
      let eSize := EntryOutSize protocol in
      let b := NewOutMessage (eSize + sizeof_OpenOut) in
      '(e, b) <- Grow eSize b ;;
      b <- overlay e (convertChildInodeEntry Entry) b ;;
      '(oo, b) <- Grow sizeof_OpenOut b ;;
      poke (oo + offsetof_OpenOut_Fh) (le_bytes 8 (uint64 Handle)) b

  | CreateSymlinkOp Entry =>
      let size := EntryOutSize protocol in
      let b := NewOutMessage size in
      '(out, b) <- Grow size b ;;
      overlay out (convertChildInodeEntry Entry) b

  | RenameOp => Ok (NewOutMessage 0)

  | RmDirOp => Ok (NewOutMessage 0)

  | UnlinkOp => Ok (NewOutMessage 0)

  | OpenDirOp Handle =>
      let b := NewOutMessage sizeof_OpenOut in
      '(out, b) <- Grow sizeof_OpenOut b ;;
      poke (out + offsetof_OpenOut_Fh) (le_bytes 8 (uint64 Handle)) b

  | ReadDirOp Data =>
      let b := NewOutMessage (length Data) in
      Append Data b

  | ReleaseDirHandleOp => Ok (NewOutMessage 0)

  | OpenFileOp Handle =>
      let b := NewOutMessage sizeof_OpenOut in
      '(out, b) <- Grow sizeof_OpenOut b ;;
      poke (out + offsetof_OpenOut_Fh) (le_bytes 8 (uint64 Handle)) b

  | ReadFileOp Data =>
      let b := NewOutMessage (length Data) in
      Append Data b

  | WriteFileOp Data =>
      let b := NewOutMessage sizeof_WriteOut in
      '(out, b) <- Grow sizeof_WriteOut b ;;
      poke (out + offsetof_WriteOut_Size)
           (le_bytes 4 (uint32 (Z.of_nat (length Data)))) b

  | SyncFileOp => Ok (NewOutMessage 0)

  | FlushFileOp => Ok (NewOutMessage 0)

  | ReleaseFileHandleOp => Ok (NewOutMessage 0)

  | ReadSymlinkOp Target =>
      let b := NewOutMessage (String.length Target) in
      AppendString Target b

  | internalStatFSOp =>
      let b := NewOutMessage sizeof_StatfsOut in
      '(_, b) <- Grow sizeof_StatfsOut b ;;
      Ok b

  | internalInterruptOp _ =>
      (* No response. *)
      Ok zero

  | internalInitOp _ Library MaxReadahead Flags MaxWrite =>
      let b := NewOutMessage sizeof_InitOut in
      '(out, b) <- Grow sizeof_InitOut b ;;
      b <- poke (out + offsetof_InitOut_Major) (le_bytes 4 (Major Library)) b ;;
      b <- poke (out + offsetof_InitOut_Minor) (le_bytes 4 (Minor Library)) b ;;
      b <- poke (out + offsetof_InitOut_MaxReadahead) (le_bytes 4 MaxReadahead) b ;;
      b <- poke (out + offsetof_InitOut_Flags) (le_bytes 4 (uint32 Flags)) b ;;
      poke (out + offsetof_InitOut_MaxWrite) (le_bytes 4 MaxWrite) b

  | unknownOp _ _ | otherValue _ =>
      Panic UnknownOpPanic
  end.

(** The response that should be sent to the kernel; [None] is the nil
    response.  [msg] and [b] share their memory: the header fields assigned
    after [msg = b.Bytes()] are part of the message returned. *)
Definition kernelResponse (fuseID : Z) (op : Op) (opErr : option error)
    (protocol : Protocol) : result (option (list byte)) :=
  b <- match opErr with
       | Some err =>
           let b := NewOutMessage 0 in
           match err with
           | Errno errno => set_Error (neg_int32 (int32 errno)) b
           | otherError _ => set_Error (neg_int32 (int32 EIO)) b
           end
       | None => kernelResponseForOp op protocol
       end ;;
  match Bytes b with
  | Some msg =>
      b <- set_Unique fuseID b ;;
      b <- set_Len (uint32 (Z.of_nat (length msg))) b ;;
      Ok (Bytes b)
  | None => Ok None
  end.

(** *** The server's handling of one op *)

(** The user's file system: one method per op variant, which fills the
    out-fields of the op and returns an error or nil; a method may be
    omitted. *)
Definition FileSystem : Type := Op -> option (Op * option error).

Record served : Type := mkServed {
  invoked : list Op;                      (* the calls made to the file system *)
  written : result (option (list byte))   (* the reply written to the device *)
}.

(** Modelled from the spec: the server loop and the connection's [Reply]
    are not among the sources.  For each op the handler looks up the
    user-supplied callback for the variant, invokes it with the op and on
    return replies with the op and the error; missing methods answer
    ENOSYS; the unknown op is answered with ENOSYS without invoking user
    code.  The reply is the frame that [kernelResponse] returns. *)
Definition handleOp (fs : FileSystem) (fuseID : Z) (op : Op)
    (protocol : Protocol) : served :=
  match op with
  | unknownOp _ _ =>
      {| invoked := [];
         written := kernelResponse fuseID op (Some (Errno ENOSYS)) protocol |}
  | _ =>
      match fs op with
      | Some (op', err) =>
          {| invoked := [op];
             written := kernelResponse fuseID op' err protocol |}
      | None =>
          {| invoked := [];
             written := kernelResponse fuseID op (Some (Errno ENOSYS)) protocol |}
      end
  end.

(** *** Views of a reply frame *)

Definition header (frame : list byte) : OutHeader := decode_OutHeader frame.
Definition body (frame : list byte) : list byte := skipn sizeof_OutHeader frame.

(** The outcome [r] is a reply whose body has [n] bytes. *)
Definition replies_with_body_size (r : result (option (list byte))) (n : nat) : Prop :=
  exists frame, r = Ok (Some frame) /\ length (body frame) = n.

End Ops.

(** ** An instance of the parameters *)

Module Sample.

Record Entry : Type := mkEntry { Child : InodeID; Generation : Z }.

Definition protocol_lt (p : Protocol) (major minor : Z) : bool :=
  (Major p <? major) || ((Major p =? major) && (Minor p <? minor)).

(** An instance to run the functions on: entries and attributes are cut
    down to two words, and the sizes are those of the Linux structs, which
    grew by eight bytes with protocol 7.9. *)
#[global] Instance deps : Deps := {|
  ChildInodeEntry := Entry;
  InodeAttributes := Z;
  Time := Z;
  EntryOutSize p := if protocol_lt p 7 9 then 120%nat else 128%nat;
  AttrOutSize p := if protocol_lt p 7 9 then 96%nat else 104%nat;
  convertChildInodeEntry e out :=
    store 0 (le_bytes 8 (Child e) ++ le_bytes 8 (Generation e)) out;
  convertExpirationTime t := (Z.max 0 t, 0);
  convertAttributes ino size out := store 0 (le_bytes 8 ino ++ le_bytes 8 size) out
|}.

(** The entry of inode 17, generation 1. *)
Definition entry17 : @ChildInodeEntry deps := mkEntry 17 1.

Definition v7_8 : Protocol := mkProtocol 7 8.
Definition v7_23 : Protocol := mkProtocol 7 23.

End Sample.

(** ** samples/flushfs/flush_fs_test.go: reading back the reports *)

Module flush_fs_test.

(** The error of a read: [io.EOF], or any other error. *)
Inductive readError : Type :=
| EOF
| otherReadError (message : string).

(** An [*os.File] as [readReports] sees it: whether [Seek(0, 0)] fails, the
    bytes read from the start on, and the error that ends the reads, which is
    [io.EOF] at the end of a file. *)
Record File : Type := mkFile {
  seekError : option string;
  contents : list byte;
  lastError : readError
}.

Definition newline : byte := x0a.

(** [bufio.Reader.ReadBytes]: reads until the first occurrence of [delim],
    returning the data up to and including the delimiter; when it meets an
    error before a delimiter it returns the data read before the error and
    the error.  The result is the record, the error if any, and what is left
    to read. *)
Fixpoint ReadBytes (delim : byte) (input : list byte) (last : readError)
  : list byte * option readError * list byte :=
  match input with
  | [] => ([], Some last, [])
  | b :: input' =>
      if Byte.eqb b delim then ([b], None, input')
      else
        let '(record, err, rest) := ReadBytes delim input' last in
        (b :: record, err, rest)
  end.

Inductive reportsError : Type :=
| SeekFailed (err : string)                 (* "Seek: %v" *)
| UnexpectedRecord (record : list byte)     (* "Unexpected record:\n%s" *)
| ReadBytesFailed (err : string).           (* "ReadBytes: %v" *)

(** The loop of [readReports]; each turn reads one record.  [fuel] bounds
    the number of turns; [None] stands for a loop cut short. *)
Fixpoint readLoop (fuel : nat) (input : list byte) (last : readError)
    (reports : list string) : option (list string + reportsError) :=
  match fuel with
  | O => None
  | S fuel' =>
      let '(record, err, rest) := ReadBytes newline input last in
      match err with
      | Some EOF =>
          if negb (length record =? 0)%nat
          then Some (inr (UnexpectedRecord record))
          else Some (inl reports)
      | Some (otherReadError e) => Some (inr (ReadBytesFailed e))
      | None =>
          (* Strip the newline. *)
          readLoop fuel' rest last
            (reports ++ [string_of_list_byte (firstn (length record - 1) record)])
      end
  end.

(** Every turn but the last reads at least one byte: one turn more than the
    file has bytes is fuel enough. *)
Definition readReports (f : File) : option (list string + reportsError) :=
  match seekError f with
  | Some err => Some (inr (SeekFailed err))
  | None => readLoop (S (length (contents f))) (contents f) (lastError f) []
  end.

(** The bytes of a file of reports: each report followed by a newline. *)
Definition lines (records : list (list byte)) : list byte :=
  concat (map (fun record => record ++ [newline]) records).

Definition reportsFile (reports : list string) : File :=
  {| seekError := None;
     contents := lines (map list_byte_of_string reports);
     lastError := EOF |}.

End flush_fs_test.

(** * Properties *)

(** ** Machine integers and bytes *)

Section IntFacts.

Lemma int32_range z : - 2 ^ 31 <= int32 z < 2 ^ 31.
Proof.
  unfold int32.
  pose proof (Z.mod_pos_bound (z + 2 ^ 31) (2 ^ 32) ltac:(lia)).
  change (2 ^ 32) with (2 * 2 ^ 31) in *. lia.
Qed.

Lemma int32_small z : - 2 ^ 31 <= z < 2 ^ 31 -> int32 z = z.
Proof.
  intros Hz. unfold int32.
  rewrite Z.mod_small; [lia|].
  change (2 ^ 32) with (2 * 2 ^ 31). lia.
Qed.

Lemma int32_uint32 z : int32 (uint32 z) = int32 z.
Proof.
  unfold int32, uint32.
  rewrite Zplus_mod_idemp_l. reflexivity.
Qed.

(** Negating an errno that fits an int32 gives its opposite. *)
Lemma neg_int32_errno e : 0 <= e <= 2 ^ 31 -> neg_int32 (int32 e) = - e.
Proof.
  intros He. unfold neg_int32.
  destruct (Z.eq_dec e (2 ^ 31)) as [->|Hne].
  - reflexivity.
  - rewrite (int32_small e) by lia. apply int32_small. lia.
Qed.

Lemma uint32_idem z : uint32 (uint32 z) = uint32 z.
Proof. unfold uint32. apply Z.mod_mod. lia. Qed.

Lemma uint32_small z : 0 <= z < 2 ^ 32 -> uint32 z = z.
Proof. intros. unfold uint32. apply Z.mod_small. lia. Qed.

Lemma uint64_small z : 0 <= z < 2 ^ 64 -> uint64 z = z.
Proof. intros. unfold uint64. apply Z.mod_small. lia. Qed.

End IntFacts.

Section MemFacts.

Lemma Z_of_byte_of_Z z : Z_of_byte (byte_of_Z z) = z mod 256.
Proof.
  unfold Z_of_byte, byte_of_Z.
  pose proof (Z.mod_pos_bound z 256 ltac:(lia)) as Hb.
  destruct (Byte.of_N (Z.to_N (z mod 256))) as [b|] eqn:E.
  - apply Byte.to_of_N in E. rewrite E. apply Z2N.id. lia.
  - apply Byte.of_N_None_iff in E. lia.
Qed.

Lemma length_le_bytes n z : length (le_bytes n z) = n.
Proof. revert z. induction n as [|n IH]; intros z; simpl; [|rewrite IH]; reflexivity. Qed.

(** Reading back what was stored: the value, cut to the bytes kept. *)
Lemma le_value_le_bytes n z :
  le_value (le_bytes n z) = z mod 2 ^ (8 * Z.of_nat n).
Proof.
  revert z. induction n as [|n IH]; intros z.
  - simpl. rewrite Z.mod_1_r. reflexivity.
  - cbn [le_bytes le_value]. rewrite Z_of_byte_of_Z, IH.
    replace (8 * Z.of_nat (S n)) with (8 + 8 * Z.of_nat n) by lia.
    rewrite Z.pow_add_r by lia. change (2 ^ 8) with 256.
    rewrite Z.rem_mul_r by lia. reflexivity.
Qed.

Lemma le_value_le_bytes_4 z : le_value (le_bytes 4 z) = uint32 z.
Proof. apply (le_value_le_bytes 4). Qed.

Lemma le_value_le_bytes_8 z : le_value (le_bytes 8 z) = uint64 z.
Proof. apply (le_value_le_bytes 8). Qed.

Lemma length_zeros n : length (zeros n) = n.
Proof. apply repeat_length. Qed.

Lemma zeros_app n m : zeros (n + m) = zeros n ++ zeros m.
Proof. apply repeat_app. Qed.

Lemma length_store off src mem : length (store off src mem) = length mem.
Proof.
  unfold store. rewrite !length_app, !length_firstn, length_skipn. lia.
Qed.

(** A write that ends inside a prefix leaves what follows alone. *)
Lemma store_app_l off src hd tl :
  (off + length src <= length hd)%nat ->
  store off src (hd ++ tl) = store off src hd ++ tl.
Proof.
  intros H. unfold store.
  rewrite firstn_app, skipn_app, length_app.
  replace (off - length hd)%nat with O by lia.
  replace (off + length src - length hd)%nat with O by lia.
  rewrite firstn_O, app_nil_r. cbn [skipn].
  rewrite (firstn_all2 src) by lia.
  rewrite (firstn_all2 (n := (length hd - off)%nat) src) by lia.
  rewrite <- !app_assoc. reflexivity.
Qed.

(** A write that starts after a prefix leaves the prefix alone. *)
Lemma store_app_r k src hd tl :
  store (length hd + k) src (hd ++ tl) = hd ++ store k src tl.
Proof.
  unfold store.
  rewrite firstn_app, skipn_app, length_app.
  rewrite (firstn_all2 hd) by lia.
  rewrite (skipn_all2 hd) by lia.
  replace (length hd + k - length hd)%nat with k by lia.
  replace (length hd + length tl - (length hd + k))%nat with (length tl - k)%nat by lia.
  replace (length hd + k + length src - length hd)%nat with (k + length src)%nat by lia.
  rewrite <- app_assoc. reflexivity.
Qed.

(** A write over a whole region replaces it. *)
Lemma store_all src mem : length src = length mem -> store 0 src mem = src.
Proof.
  intros H. unfold store. cbn [firstn app].
  rewrite Nat.sub_0_r, firstn_all2 by lia.
  rewrite skipn_all2 by (simpl; lia). apply app_nil_r.
Qed.

End MemFacts.

(** ** Out messages *)

Section BufferFacts.

Lemma length_list_byte_of_string s :
  length (list_byte_of_string s) = String.length s.
Proof.
  unfold list_byte_of_string. rewrite length_map.
  induction s as [|c s IH]; simpl; [|rewrite IH]; reflexivity.
Qed.

Lemma Grow_ok size mem l :
  (l + size <= length mem)%nat ->
  Grow size (mkOutMessage (Some mem) l)
  = Ok (l, mkOutMessage (Some mem) (l + size)).
Proof.
  intros H. unfold Grow. cbn [cap storage buffer.len].
  destruct (Nat.leb_spec (l + size) (length mem)); [reflexivity|lia].
Qed.

Lemma poke_ok p src mem l :
  poke p src (mkOutMessage (Some mem) l)
  = Ok (mkOutMessage (Some (store p src mem)) l).
Proof. reflexivity. Qed.

Lemma overlay_ok p fill mem l :
  overlay p fill (mkOutMessage (Some mem) l)
  = Ok (mkOutMessage (Some (store p (fill (skipn p mem)) mem)) l).
Proof. reflexivity. Qed.

Lemma Append_ok p mem l :
  (l + length p <= length mem)%nat ->
  Append p (mkOutMessage (Some mem) l)
  = Ok (mkOutMessage (Some (store l p mem)) (l + length p)).
Proof.
  intros H. unfold Append. rewrite Grow_ok by assumption. reflexivity.
Qed.

(** A buffer of at least sixteen bytes is its header followed by the
    rest. *)
Lemma split_header (mem : list byte) :
  (16 <= length mem)%nat ->
  exists b0 b1 b2 b3 b4 b5 b6 b7 b8 b9 b10 b11 b12 b13 b14 b15 rest,
    mem = [b0; b1; b2; b3; b4; b5; b6; b7; b8; b9; b10; b11; b12; b13; b14; b15]
          ++ rest.
Proof.
  intros H.
  do 16 (destruct mem as [|? mem]; [simpl in H; lia|]).
  repeat eexists.
Qed.

(** The end of [kernelResponse]: the header of an allocated message gets
    the request's id and the length of the message, and the message is
    what is returned. *)
Lemma fill_in_header fuseID mem l :
  (16 <= l <= length mem)%nat ->
  match Bytes (mkOutMessage (Some mem) l) with
  | Some msg =>
      b <- set_Unique fuseID (mkOutMessage (Some mem) l) ;;
      b <- set_Len (uint32 (Z.of_nat (length msg))) b ;;
      Ok (Bytes b)
  | None => Ok None
  end
  = Ok (Some (le_bytes 4 (uint32 (Z.of_nat l)) ++ load 4 4 mem
              ++ le_bytes 8 fuseID ++ load 16 (l - 16) mem)).
Proof.
  intros [Hl Hm].
  cbn [Bytes option_map storage buffer.len].
  rewrite length_firstn, Nat.min_l by assumption.
  unfold set_Unique, set_Len. rewrite poke_ok. cbn [bind]. rewrite poke_ok.
  cbn [bind Bytes option_map storage buffer.len].
  destruct (split_header mem) as
    (b0 & b1 & b2 & b3 & b4 & b5 & b6 & b7 & b8 & b9 & b10 & b11 & b12
        & b13 & b14 & b15 & rest & ->); [lia|].
  rewrite length_app in Hm. cbn [length] in Hm.
  rewrite (store_app_l offsetof_Unique) by (rewrite length_le_bytes; cbn; lia).
  rewrite (store_app_l offsetof_Len)
    by (rewrite length_store, length_le_bytes; cbn; lia).
  rewrite firstn_app, length_store. cbn [length].
  rewrite firstn_all2 by (rewrite length_store; cbn; lia).
  reflexivity.
Qed.

(** The header read back from its bytes. *)
Lemma decode_encode_OutHeader (h : OutHeader) :
  decode_OutHeader (encode_OutHeader h)
  = {| Len := uint32 (Len h); Error := int32 (Error h);
       Unique := uint64 (Unique h) |}.
Proof.
  unfold decode_OutHeader, encode_OutHeader.
  replace (load offsetof_Len 4 _) with (le_bytes 4 (Len h)) by reflexivity.
  replace (load offsetof_Error 4 _) with (le_bytes 4 (Error h)) by reflexivity.
  replace (load offsetof_Unique 8 _) with (le_bytes 8 (Unique h)) by reflexivity.
  rewrite !le_value_le_bytes_4, le_value_le_bytes_8, int32_uint32.
  reflexivity.
Qed.

Lemma body_of_frame (l u : Z) (e payload : list byte) :
  length e = 4%nat ->
  skipn sizeof_OutHeader (le_bytes 4 l ++ e ++ le_bytes 8 u ++ payload) = payload.
Proof.
  intros He.
  do 4 (destruct e as [|? e]; [discriminate He|]).
  destruct e; [reflexivity|discriminate He].
Qed.

Lemma length_frame (l u : Z) (e payload : list byte) :
  length e = 4%nat ->
  length (le_bytes 4 l ++ e ++ le_bytes 8 u ++ payload) = (16 + length payload)%nat.
Proof.
  intros He. rewrite !length_app, !length_le_bytes, He. lia.
Qed.

End BufferFacts.

(** ** The reply to an op *)

Create Rewrite HintDb buffer_length.
#[global] Hint Rewrite length_store length_zeros length_le_bytes
  length_list_byte_of_string : buffer_length.

(** Runs the buffer operations of an encoding whose buffer is known. *)
Ltac run_buffer :=
  unfold NewOutMessage, AppendString, sizeof_OutHeader;
  repeat (first
    [ rewrite Grow_ok by (autorewrite with buffer_length; cbn; lia)
    | rewrite Append_ok by (autorewrite with buffer_length; cbn; lia)
    | rewrite poke_ok
    | rewrite overlay_ok ];
    cbn [bind]).

Ltac buffer_lengths := autorewrite with buffer_length; cbn; try lia.

Section OpsFacts.
Context {D : Deps}.

(** With a nil error, an op that is answered gets a buffer that the
    encoding fills to the end. *)
Lemma kernelResponseForOp_allocates (op : Op) (protocol : Protocol) :
  recognised op = true -> noResponse op = false ->
  exists mem l,
    kernelResponseForOp op protocol = Ok (mkOutMessage (Some mem) l)
    /\ l = length mem /\ (16 <= l)%nat.
Proof.
  intros Hrec Hrep.
  destruct op; try discriminate;
    cbn [kernelResponseForOp];
    try destruct (convertExpirationTime _) as [AttrValid AttrValidNsec];
    run_buffer;
    (do 2 eexists; split; [reflexivity | split; [buffer_lengths | lia]]).
Qed.

Lemma kernelResponseForOp_noResponse (op : Op) (protocol : Protocol) :
  noResponse op = true -> kernelResponseForOp op protocol = Ok zero.
Proof. destruct op; try discriminate; reflexivity. Qed.

Lemma kernelResponseForOp_unknown (op : Op) (protocol : Protocol) :
  recognised op = false -> kernelResponseForOp op protocol = Panic UnknownOpPanic.
Proof. destruct op; try discriminate; reflexivity. Qed.

(** The frame of a reply, given the buffer of its encoding. *)
Lemma kernelResponse_of_buffer fuseID op protocol mem :
  kernelResponseForOp op protocol = Ok (mkOutMessage (Some mem) (length mem)) ->
  (16 <= length mem)%nat ->
  kernelResponse fuseID op None protocol
  = Ok (Some (le_bytes 4 (uint32 (Z.of_nat (length mem))) ++ load 4 4 mem
              ++ le_bytes 8 fuseID ++ skipn 16 mem)).
Proof.
  intros Hb Hl. unfold kernelResponse. rewrite Hb. cbn [bind].
  rewrite fill_in_header by lia.
  unfold load at 2. rewrite firstn_all2 by (rewrite length_skipn; lia).
  reflexivity.
Qed.

(** The frame of the reply to an error: the header alone. *)
Lemma kernelResponse_of_error fuseID op err protocol :
  kernelResponse fuseID op (Some err) protocol
  = Ok (Some (encode_OutHeader
                {| Len := 16;
                   Error := match err with
                            | Errno errno => neg_int32 (int32 errno)
                            | otherError _ => neg_int32 (int32 EIO)
                            end;
                   Unique := fuseID |})).
Proof. destruct err; reflexivity. Qed.

(** When [kernelResponse] answers: to any error, and without an error to
    the recognised ops outside the no-reply set. *)
Lemma kernelResponse_replies fuseID op opErr protocol :
  opErr <> None \/ (recognised op = true /\ noResponse op = false) ->
  exists frame, kernelResponse fuseID op opErr protocol = Ok (Some frame).
Proof.
  intros H. destruct opErr as [err|].
  - rewrite kernelResponse_of_error. eexists. reflexivity.
  - destruct H as [H|[Hrec Hrep]]; [congruence|].
    destruct (kernelResponseForOp_allocates op protocol Hrec Hrep)
      as (mem & l & Hb & -> & Hl).
    rewrite (kernelResponse_of_buffer fuseID op protocol mem Hb Hl).
    eexists. reflexivity.
Qed.

(** Every frame returned has the shape: length, error, id, payload. *)
Lemma kernelResponse_frame_shape fuseID op opErr protocol frame :
  kernelResponse fuseID op opErr protocol = Ok (Some frame) ->
  exists e payload,
    frame = le_bytes 4 (uint32 (Z.of_nat (16 + length payload))) ++ e
            ++ le_bytes 8 fuseID ++ payload
    /\ length e = 4%nat.
Proof.
  intros H. destruct opErr as [err|].
  - rewrite kernelResponse_of_error in H. injection H as <-.
    eexists (le_bytes 4 _), []. split; reflexivity.
  - destruct (recognised op) eqn:Hrec.
    + destruct (noResponse op) eqn:Hrep.
      * unfold kernelResponse in H.
        rewrite kernelResponseForOp_noResponse in H by assumption.
        discriminate.
      * destruct (kernelResponseForOp_allocates op protocol Hrec Hrep)
          as (mem & l & Hb & -> & Hl).
        rewrite (kernelResponse_of_buffer fuseID op protocol mem Hb Hl) in H.
        injection H as <-.
        exists (load 4 4 mem), (skipn 16 mem). split.
        -- rewrite length_skipn.
           replace (16 + (length mem - 16))%nat with (length mem) by lia.
           reflexivity.
        -- unfold load. rewrite length_firstn, length_skipn. lia.
    + unfold kernelResponse in H.
      rewrite kernelResponseForOp_unknown in H by assumption.
      discriminate.
Qed.

End OpsFacts.

Section FrameFacts.
Context {D : Deps}.

(** The length and the id read back from a frame, whatever its error
    field holds. *)
Lemma Len_Unique_of_frame (l u : Z) (e payload : list byte) :
  length e = 4%nat ->
  Len (header (le_bytes 4 l ++ e ++ le_bytes 8 u ++ payload)) = uint32 l
  /\ Unique (header (le_bytes 4 l ++ e ++ le_bytes 8 u ++ payload)) = uint64 u.
Proof.
  intros He.
  do 4 (destruct e as [|? e]; [discriminate He|]).
  destruct e; [|discriminate He].
  unfold header, decode_OutHeader. cbn [Len Unique]. split.
  - replace (load offsetof_Len 4 _) with (le_bytes 4 l) by reflexivity.
    apply le_value_le_bytes_4.
  - replace (load offsetof_Unique 8 _) with (le_bytes 8 u) by reflexivity.
    apply le_value_le_bytes_8.
Qed.

(** The reply to an op encoded in the buffer [mem]: the payload is what
    follows the header in [mem]. *)
Lemma kernelResponse_body fuseID op protocol mem l :
  kernelResponseForOp op protocol = Ok (mkOutMessage (Some mem) l) ->
  l = length mem -> (16 <= l)%nat ->
  exists frame,
    kernelResponse fuseID op None protocol = Ok (Some frame)
    /\ body frame = skipn 16 mem
    /\ length frame = length mem.
Proof.
  intros Hb -> Hl.
  rewrite (kernelResponse_of_buffer fuseID op protocol mem Hb Hl).
  eexists. split; [reflexivity|].
  assert (He : length (load 4 4 mem) = 4%nat)
    by (unfold load; rewrite length_firstn, length_skipn; lia).
  split.
  - apply body_of_frame. exact He.
  - rewrite length_frame by exact He. rewrite length_skipn. lia.
Qed.

End FrameFacts.

(** * The reply invariants *)

Section Claims.
Context {D : Deps}.

(** ** Ops without a reply *)

(** With a nil error, the ops of the no-reply set get the nil response. *)
Lemma noResponse_nil_error fuseID op protocol :
  noResponse op = true -> kernelResponse fuseID op None protocol = Ok None.
Proof.
  intros H. unfold kernelResponse.
  rewrite kernelResponseForOp_noResponse by assumption. reflexivity.
Qed.

(** With an error, they get a header like every other op: the error
    branch of [kernelResponse] does not look at the op. *)
Lemma noResponse_error fuseID op err protocol :
  noResponse op = true ->
  exists frame,
    kernelResponse fuseID op (Some err) protocol = Ok (Some frame)
    /\ length frame = sizeof_OutHeader.
Proof.
  intros _. rewrite kernelResponse_of_error. eexists. split; reflexivity.
Qed.

(** C1, at the input where the code departs from it: a Forget op that the
    file system answered with ENOSYS, request id 1.  [kernelResponse]
    returns a frame of sixteen bytes, length 16, error -38, id 1, where the
    claim has the nil response; with a nil error the same op, and an
    Interrupt op, do get the nil response. *)
Theorem forget_with_error_gets_a_frame (protocol : Protocol) :
  kernelResponse 1 ForgetInodeOp (Some (Errno ENOSYS)) protocol
  = Ok (Some [x10; x00; x00; x00;  xda; xff; xff; xff;
              x01; x00; x00; x00; x00; x00; x00; x00])
  /\ header [x10; x00; x00; x00;  xda; xff; xff; xff;
             x01; x00; x00; x00; x00; x00; x00; x00]
     = {| Len := 16; Error := - ENOSYS; Unique := 1 |}
  /\ kernelResponse 1 ForgetInodeOp None protocol = Ok None
  /\ kernelResponse 1 (internalInterruptOp 1) None protocol = Ok None.
Proof. repeat split. Qed.

(** ** Replies to errors *)

(** C2: to a non-nil error, whatever the op, [kernelResponse] replies with
    the header alone: the frame has the size of the header and no payload,
    Len is that size, and Error is the errno negated as the code negates
    it, in int32: for a syscall.Errno that is its opposite as long as the
    errno fits an int32; an error of any other type is reported as EIO. *)
Theorem error_reply_is_header_only fuseID op err protocol :
  exists frame,
    kernelResponse fuseID op (Some err) protocol = Ok (Some frame)
    /\ length frame = sizeof_OutHeader
    /\ body frame = []
    /\ Len (header frame) = Z.of_nat sizeof_OutHeader
    /\ Error (header frame)
       = match err with
         | Errno errno => neg_int32 (int32 errno)
         | otherError _ => - EIO
         end
    /\ (forall errno,
           err = Errno errno -> 0 <= errno <= 2 ^ 31 ->
           Error (header frame) = - errno).
Proof.
  rewrite kernelResponse_of_error. eexists. split; [reflexivity|].
  split; [reflexivity|]. split; [reflexivity|].
  unfold header. rewrite decode_encode_OutHeader. cbn [Len fusekernel.Error].
  split; [reflexivity|].
  assert (E : int32 (match err with
                     | Errno errno => neg_int32 (int32 errno)
                     | otherError _ => neg_int32 (int32 EIO)
                     end)
              = match err with
                | Errno errno => neg_int32 (int32 errno)
                | otherError _ => - EIO
                end).
  { destruct err; [|reflexivity].
    apply int32_small. unfold neg_int32. apply int32_range. }
  split; [exact E|].
  intros errno -> He. rewrite E. apply neg_int32_errno. exact He.
Qed.

(** ** The header of a reply *)

(** C3: every frame that [kernelResponse] returns for the request with
    identifier fuseID (an unsigned 64-bit number) has fuseID as the Unique
    field of its header, whatever the op and the error. *)
Theorem reply_unique_is_fuseID fuseID op opErr protocol frame :
  0 <= fuseID < 2 ^ 64 ->
  kernelResponse fuseID op opErr protocol = Ok (Some frame) ->
  Unique (header frame) = fuseID.
Proof.
  intros Hid H.
  destruct (kernelResponse_frame_shape _ _ _ _ _ H) as (e & payload & -> & He).
  destruct (Len_Unique_of_frame (uint32 (Z.of_nat (16 + length payload)))
              fuseID e payload He) as [_ ->].
  apply uint64_small. exact Hid.
Qed.

(** In general the Len field is the length of the frame cut to 32 bits. *)
Lemma reply_len_uint32 fuseID op opErr protocol frame :
  kernelResponse fuseID op opErr protocol = Ok (Some frame) ->
  Len (header frame) = uint32 (Z.of_nat (length frame)).
Proof.
  intros H.
  destruct (kernelResponse_frame_shape _ _ _ _ _ H) as (e & payload & -> & He).
  destruct (Len_Unique_of_frame (uint32 (Z.of_nat (16 + length payload)))
              fuseID e payload He) as [-> _].
  rewrite length_frame by exact He. apply uint32_idem.
Qed.

(** C4: the Len field of the header of every frame that [kernelResponse]
    returns is the length in bytes of the whole frame, header included, as
    the uint32 that the field is: it is equal to that length for every frame
    shorter than 2^32 bytes. *)
Theorem reply_len_is_frame_length fuseID op opErr protocol frame :
  kernelResponse fuseID op opErr protocol = Ok (Some frame) ->
  Len (header frame) = uint32 (Z.of_nat (length frame))
  /\ (Z.of_nat (length frame) < 2 ^ 32 ->
      Len (header frame) = Z.of_nat (length frame)).
Proof.
  intros H. pose proof (reply_len_uint32 _ _ _ _ _ H) as HLen.
  split; [exact HLen|].
  intros Hfit. rewrite HLen. apply uint32_small. lia.
Qed.

(** ** The payload of a reply *)

(** Encodes [op] and hands the buffer to [kernelResponse_body]. *)
Ltac reply_of_buffer fuseID op protocol frame Hf Hb Hl :=
  edestruct (kernelResponse_body fuseID op protocol) as (frame & Hf & Hb & Hl);
  [ cbn [kernelResponseForOp];
    try rewrite (surjective_pairing (convertExpirationTime _));
    run_buffer; cbv iota; run_buffer; reflexivity
  | buffer_lengths
  | lia
  | ].

(** C5: with a nil error, the body of the reply to LookUpInode, MkDir and
    CreateSymlink has EntryOutSize(protocol) bytes, that of the reply to
    GetInodeAttributes and SetInodeAttributes has AttrOutSize(protocol)
    bytes, and that of the reply to CreateFile has EntryOutSize(protocol)
    bytes plus the size of OpenOut: the sizes of the negotiated protocol. *)
Theorem entry_and_attr_bodies_have_the_protocol_size fuseID protocol :
  (forall Entry,
      replies_with_body_size
        (kernelResponse fuseID (LookUpInodeOp Entry) None protocol)
        (EntryOutSize protocol))
  /\ (forall Inode Attributes AttributesExpiration,
      replies_with_body_size
        (kernelResponse fuseID
           (GetInodeAttributesOp Inode Attributes AttributesExpiration)
           None protocol)
        (AttrOutSize protocol))
  /\ (forall Inode Attributes AttributesExpiration,
      replies_with_body_size
        (kernelResponse fuseID
           (SetInodeAttributesOp Inode Attributes AttributesExpiration)
           None protocol)
        (AttrOutSize protocol))
  /\ (forall Entry,
      replies_with_body_size
        (kernelResponse fuseID (MkDirOp Entry) None protocol)
        (EntryOutSize protocol))
  /\ (forall Entry,
      replies_with_body_size
        (kernelResponse fuseID (CreateSymlinkOp Entry) None protocol)
        (EntryOutSize protocol))
  /\ (forall Entry Handle,
      replies_with_body_size
        (kernelResponse fuseID (CreateFileOp Entry Handle) None protocol)
        (EntryOutSize protocol + sizeof_OpenOut)).
Proof.
  repeat split; intros;
    match goal with
    | |- replies_with_body_size (kernelResponse _ ?op _ _) _ =>
        reply_of_buffer fuseID op protocol frame Hf Hb Hl
    end;
    (exists frame; split; [exact Hf|]);
    rewrite Hb, length_skipn; buffer_lengths.
Qed.

(** C6, as the code has it: with a nil error, the body of the reply to an
    Init op is an InitOut whose Major and Minor are those of the op's
    Library protocol and whose MaxReadahead, Flags and MaxWrite are the
    op's out-fields; the two words that the kernel reads as the congestion
    thresholds are zero. *)
Theorem init_reply_body fuseID Kernel Library MaxReadahead Flags MaxWrite protocol :
  exists frame,
    kernelResponse fuseID
      (internalInitOp Kernel Library MaxReadahead Flags MaxWrite) None protocol
    = Ok (Some frame)
    /\ body frame
       = encode_InitOut
           {| InitOut_Major := Major Library;
              InitOut_Minor := Minor Library;
              InitOut_MaxReadahead := MaxReadahead;
              InitOut_Flags := uint32 Flags;
              InitOut_MaxBackground := 0;
              InitOut_CongestionThreshold := 0;
              InitOut_MaxWrite := MaxWrite |}.
Proof.
  reply_of_buffer fuseID (internalInitOp Kernel Library MaxReadahead Flags MaxWrite)
    protocol frame Hf Hb Hl.
  exists frame. split; [exact Hf|]. rewrite Hb. reflexivity.
Qed.

(** The buffer of a reply that appends [Data] to the header. *)
Lemma data_buffer (Data : list byte) :
  store 16 Data (zeros (16 + length Data)) = zeros 16 ++ Data.
Proof.
  rewrite zeros_app.
  pose proof (store_app_r 0 Data (zeros 16) (zeros (length Data))) as H.
  change (length (zeros 16) + 0)%nat with 16%nat in H. rewrite H.
  rewrite store_all by (symmetry; apply length_zeros). reflexivity.
Qed.

Lemma data_reply fuseID op protocol (Data : list byte) :
  kernelResponseForOp op protocol = Append Data (NewOutMessage (length Data)) ->
  kernelResponse fuseID op None protocol
  = Ok (Some (encode_OutHeader
                {| Len := uint32 (Z.of_nat (16 + length Data));
                   Error := 0;
                   Unique := fuseID |} ++ Data)).
Proof.
  intros Hop.
  assert (Hb : kernelResponseForOp op protocol
               = Ok (mkOutMessage (Some (zeros 16 ++ Data))
                                  (length (zeros 16 ++ Data)))).
  { rewrite Hop. run_buffer. rewrite data_buffer, length_app. reflexivity. }
  rewrite (kernelResponse_of_buffer fuseID op protocol _ Hb)
    by (rewrite length_app; cbn; lia).
  rewrite length_app. unfold encode_OutHeader. rewrite <- !app_assoc.
  reflexivity.
Qed.

(** C7: with a nil error, the frame of the reply to a ReadFile or a
    ReadDir op that carries the data D is the reply header (the length of
    the frame, error zero, the request's id) followed by D, byte for byte;
    the body of the reply to a ReadSymlink op with target s is the bytes of
    s and nothing more, so it is as long as s. *)
Theorem read_replies_carry_the_data fuseID protocol :
  (forall Data,
      kernelResponse fuseID (ReadFileOp Data) None protocol
      = Ok (Some (encode_OutHeader
                    {| Len := uint32 (Z.of_nat (16 + length Data));
                       Error := 0;
                       Unique := fuseID |} ++ Data)))
  /\ (forall Data,
      kernelResponse fuseID (ReadDirOp Data) None protocol
      = Ok (Some (encode_OutHeader
                    {| Len := uint32 (Z.of_nat (16 + length Data));
                       Error := 0;
                       Unique := fuseID |} ++ Data)))
  /\ (forall Target,
      exists frame,
        kernelResponse fuseID (ReadSymlinkOp Target) None protocol
        = Ok (Some frame)
        /\ body frame = list_byte_of_string Target
        /\ length (body frame) = String.length Target).
Proof.
  split; [|split]; intros.
  - apply data_reply. reflexivity.
  - apply data_reply. reflexivity.
  - rewrite (data_reply fuseID _ protocol (list_byte_of_string Target)).
    + eexists. split; [reflexivity|].
      assert (Hb : body (encode_OutHeader
                           {| Len := uint32 (Z.of_nat
                                (16 + length (list_byte_of_string Target)));
                              Error := 0; Unique := fuseID |}
                         ++ list_byte_of_string Target)
                   = list_byte_of_string Target) by reflexivity.
      rewrite Hb. split; [reflexivity|]. apply length_list_byte_of_string.
    + cbn [kernelResponseForOp]. unfold AppendString.
      rewrite length_list_byte_of_string. reflexivity.
Qed.

(** C10: with a nil error, the body of the reply to a StatFS op is a
    StatfsOut all of whose bytes are zero: the op has no out-fields and the
    encoding writes nothing into the struct. *)
Theorem statfs_reply_is_all_zero fuseID protocol :
  exists frame,
    kernelResponse fuseID internalStatFSOp None protocol = Ok (Some frame)
    /\ body frame = zeros sizeof_StatfsOut
    /\ Error (header frame) = 0.
Proof.
  reply_of_buffer fuseID internalStatFSOp protocol frame Hf Hb Hl.
  exists frame. split; [exact Hf|]. split; [rewrite Hb; reflexivity|].
  unfold kernelResponse in Hf. cbn in Hf. injection Hf as <-. reflexivity.
Qed.

(** ** Unknown ops *)

(** C9: [kernelResponseForOp] returns exactly on the recognised ops; on a
    value of any other dynamic type, the unknownOp sentinel included, it
    panics, and so does [kernelResponse] with a nil error, while with an
    error [kernelResponse] replies whatever the op is: an unknown op has to
    be answered with an error. *)
Theorem unknown_ops_need_an_error fuseID op protocol :
  (recognised op = true <-> exists b, kernelResponseForOp op protocol = Ok b)
  /\ (recognised op = false
      <-> kernelResponseForOp op protocol = Panic UnknownOpPanic)
  /\ (recognised op = false
      <-> kernelResponse fuseID op None protocol = Panic UnknownOpPanic)
  /\ (forall err,
        exists frame, kernelResponse fuseID op (Some err) protocol = Ok (Some frame))
  /\ (forall opCode inode, recognised (unknownOp opCode inode) = false)
  /\ (forall dynamicType, recognised (otherValue dynamicType) = false).
Proof.
  assert (Hok : recognised op = true ->
                exists b, kernelResponseForOp op protocol = Ok b).
  { intros Hrec. destruct (noResponse op) eqn:Hrep.
    - exists zero. apply kernelResponseForOp_noResponse. exact Hrep.
    - destruct (kernelResponseForOp_allocates op protocol Hrec Hrep)
        as (mem & l & Hb & _). eexists. exact Hb. }
  split; [|split; [|split; [|split; [|split]]]].
  - split; [exact Hok|].
    intros [b Hb]. destruct (recognised op) eqn:Hrec; [reflexivity|].
    rewrite kernelResponseForOp_unknown in Hb by exact Hrec. discriminate.
  - split; [apply kernelResponseForOp_unknown|].
    intros Hp. destruct (recognised op) eqn:Hrec; [|reflexivity].
    destruct (Hok eq_refl) as [b Hb]. congruence.
  - split.
    + intros Hrec. unfold kernelResponse.
      rewrite kernelResponseForOp_unknown by exact Hrec. reflexivity.
    + intros Hp. destruct (recognised op) eqn:Hrec; [|reflexivity].
      destruct (noResponse op) eqn:Hrep.
      * rewrite noResponse_nil_error in Hp by exact Hrep. discriminate.
      * destruct (kernelResponse_replies fuseID op None protocol) as [frame Hf];
          [right; split; assumption|]. congruence.
  - intros err. apply kernelResponse_replies. left. discriminate.
  - reflexivity.
  - reflexivity.
Qed.

(** C8: the request of an opcode that the library does not understand,
    which reaches the server as the unknown op, is answered with a frame
    that is the header alone, whose Error is -ENOSYS and whose Unique is the
    request's fuseID, and the file system is not called. *)
Theorem unknown_op_is_answered_ENOSYS (fs : FileSystem) fuseID opCode inode protocol :
  0 <= fuseID < 2 ^ 64 ->
  exists frame,
    handleOp fs fuseID (unknownOp opCode inode) protocol
    = {| invoked := []; written := Ok (Some frame) |}
    /\ length frame = sizeof_OutHeader
    /\ body frame = []
    /\ Error (header frame) = - ENOSYS
    /\ Unique (header frame) = fuseID.
Proof.
  intros Hid. cbn [handleOp]. rewrite kernelResponse_of_error.
  eexists. split; [reflexivity|].
  split; [reflexivity|]. split; [reflexivity|].
  unfold header. rewrite decode_encode_OutHeader.
  cbn [fusekernel.Error Unique]. split; [reflexivity|].
  apply uint64_small. exact Hid.
Qed.

End Claims.

(** * The invariants on concrete requests *)

Section Examples.
Import Sample.

(** A read of two bytes, request 258, protocol 7.23: the id is echoed. *)
Lemma reply_unique_is_fuseID_witness :
  exists frame,
    kernelResponse 258 (ReadFileOp [x01; x02]) None v7_23 = Ok (Some frame)
    /\ Unique (header frame) = 258.
Proof.
  eexists. split; [reflexivity|].
  apply (reply_unique_is_fuseID 258 (ReadFileOp [x01; x02]) None v7_23).
  - lia.
  - reflexivity.
Defined.

(** The reply to CreateFile under protocol 7.8: 16 + 120 + 16 bytes. *)
Lemma reply_len_is_frame_length_witness :
  exists frame,
    kernelResponse 5 (CreateFileOp entry17 3) None v7_8 = Ok (Some frame)
    /\ length frame = 152%nat
    /\ Len (header frame) = 152.
Proof.
  eexists. split; [reflexivity|]. split; [reflexivity|].
  apply (reply_len_is_frame_length 5 (CreateFileOp entry17 3) None v7_8).
  - reflexivity.
  - reflexivity.
Defined.

(** Opcode 255, request 42, a file system that answers every op. *)
Lemma unknown_op_is_answered_ENOSYS_witness :
  exists frame,
    handleOp (fun op => Some (op, None)) 42 (unknownOp 255 1) v7_23
    = {| invoked := []; written := Ok (Some frame) |}
    /\ length frame = sizeof_OutHeader
    /\ body frame = []
    /\ Error (header frame) = - ENOSYS
    /\ Unique (header frame) = 42.
Proof.
  apply (unknown_op_is_answered_ENOSYS (fun op => Some (op, None)) 42 255 1 v7_23).
  lia.
Defined.

(** The body of the reply to LookUpInode follows the protocol: 120 bytes
    under 7.8, 128 bytes under 7.23. *)
Example lookup_body_size_by_protocol :
  replies_with_body_size
    (kernelResponse 9 (LookUpInodeOp entry17) None v7_8) 120
  /\ replies_with_body_size
       (kernelResponse 9 (LookUpInodeOp entry17) None v7_23) 128.
Proof. split; eexists; split; reflexivity. Qed.

(** An errno of 2 (ENOENT) is reported as -2; an error that is not an
    errno is reported as -5 (EIO). *)
Example error_reply_examples :
  option_map header
    (match kernelResponse 7 RmDirOp (Some (Errno 2)) v7_23 with
     | Ok msg => msg
     | Panic _ => None
     end)
  = Some {| Len := 16; Error := -2; Unique := 7 |}
  /\ option_map header
       (match kernelResponse 7 RmDirOp (Some (otherError "boom")) v7_23 with
        | Ok msg => msg
        | Panic _ => None
        end)
     = Some {| Len := 16; Error := -5; Unique := 7 |}.
Proof. split; reflexivity. Qed.

(** C6 as the claim has it fails: an Init op answered with library
    protocol 7.23, read-ahead 131072, flags 1 and maximum write 4096, on a
    mount configured with the thresholds 12 and 9.  The words where the
    kernel reads the thresholds hold zero, and the body is not the InitOut
    that carries 12 and 9. *)
Lemma init_reply_has_no_congestion_thresholds :
  exists frame,
    kernelResponse 1 (internalInitOp (mkProtocol 7 31) v7_23 131072 1 4096)
      None v7_23
    = Ok (Some frame)
    /\ load 16 4 (body frame) = zeros 4
    /\ body frame
       <> encode_InitOut
            {| InitOut_Major := 7;
               InitOut_Minor := 23;
               InitOut_MaxReadahead := 131072;
               InitOut_Flags := 1;
               InitOut_MaxBackground := 12;
               InitOut_CongestionThreshold := 9;
               InitOut_MaxWrite := 4096 |}.
Proof.
  eexists. split; [reflexivity|]. split; [reflexivity|].
  vm_compute. discriminate.
Qed.

End Examples.

(** * Further properties of the replies *)

(** ** More on integers and memory *)

Section MoreFacts.

(** An int32 is zero exactly when the low 32 bits are. *)
Lemma int32_zero_iff z : int32 z = 0 <-> uint32 z = 0.
Proof.
  unfold int32, uint32.
  change (2 ^ 32) with 4294967296. change (2 ^ 31) with 2147483648.
  Z.to_euclidean_division_equations. lia.
Qed.

Lemma uint32_opp_zero_iff z : uint32 (- z) = 0 <-> uint32 z = 0.
Proof.
  unfold uint32. change (2 ^ 32) with 4294967296.
  Z.to_euclidean_division_equations. lia.
Qed.

Lemma uint32_int32 z : uint32 (int32 z) = uint32 z.
Proof.
  unfold int32, uint32.
  change (2 ^ 32) with 4294967296. change (2 ^ 31) with 2147483648.
  Z.to_euclidean_division_equations. lia.
Qed.

(** The errno as the kernel reads it back is zero exactly when the low 32
    bits of the errno are. *)
Lemma neg_int32_zero_iff errno : neg_int32 (int32 errno) = 0 <-> uint32 errno = 0.
Proof.
  unfold neg_int32.
  rewrite int32_zero_iff, uint32_opp_zero_iff, uint32_int32. reflexivity.
Qed.

(** A write past a prefix leaves the prefix alone. *)
Lemma firstn_store_ge n off src mem :
  (n <= off)%nat -> firstn n (store off src mem) = firstn n mem.
Proof.
  intros H. unfold store.
  destruct (Nat.le_gt_cases (length mem) off) as [Hlen|Hlen].
  - rewrite (firstn_all2 mem) by exact Hlen.
    replace (length mem - off)%nat with O by lia.
    rewrite skipn_all2 by lia. cbn [firstn app]. rewrite app_nil_r. reflexivity.
  - rewrite firstn_app, length_firstn, Nat.min_l by lia.
    replace (n - off)%nat with O by lia.
    rewrite firstn_O, app_nil_r, firstn_firstn, Nat.min_l by lia. reflexivity.
Qed.

(** What was written is what is read back, when it fits. *)
Lemma load_store_same off src mem :
  (off + length src <= length mem)%nat ->
  load off (length src) (store off src mem) = src.
Proof.
  intros H. unfold load, store.
  rewrite skipn_app, length_firstn, Nat.min_l by lia.
  rewrite Nat.sub_diag. cbn [skipn].
  rewrite (skipn_all2 (firstn off mem)) by (rewrite length_firstn; lia).
  cbn [app]. rewrite (firstn_all2 (n := (length mem - off)%nat) src) by lia.
  rewrite firstn_app, Nat.sub_diag, firstn_O, app_nil_r.
  apply firstn_all.
Qed.

(** A load only looks at the bytes before its end. *)
Lemma load_firstn off n m mem :
  (off + n <= m)%nat -> load off n (firstn m mem) = load off n mem.
Proof.
  intros H. unfold load.
  rewrite !firstn_skipn_comm, firstn_firstn, Nat.min_l by lia. reflexivity.
Qed.

Lemma load_skipn k off n mem : load off n (skipn k mem) = load (k + off) n mem.
Proof. unfold load. rewrite skipn_skipn, Nat.add_comm. reflexivity. Qed.

Lemma Ok_Some_inj {A : Type} (a b : A) : Ok (Some a) = Ok (Some b) -> a = b.
Proof. intros H. injection H as H. exact H. Qed.

Lemma firstn_zeros n m : firstn n (zeros (n + m)) = zeros n.
Proof.
  rewrite zeros_app, firstn_app, length_zeros, Nat.sub_diag, firstn_O, app_nil_r.
  apply firstn_all2. rewrite length_zeros. lia.
Qed.

End MoreFacts.

(** ** The three outcomes of [kernelResponse] *)

Section Outcomes.
Context {D : Deps}.

(** For an op, an error and a protocol, whatever the request id:
    [kernelResponse] returns a frame in which the id sits in bytes 8 to 15
    and nowhere else, or the nil response, or it panics on an unknown op. *)
Lemma kernelResponse_uniform op opErr protocol :
  (exists e payload,
      length e = 4%nat
      /\ forall fuseID,
          kernelResponse fuseID op opErr protocol
          = Ok (Some (le_bytes 4 (uint32 (Z.of_nat (16 + length payload)))
                      ++ e ++ le_bytes 8 fuseID ++ payload)))
  \/ (opErr = None /\ noResponse op = true
      /\ forall fuseID, kernelResponse fuseID op opErr protocol = Ok None)
  \/ (opErr = None /\ recognised op = false
      /\ forall fuseID,
          kernelResponse fuseID op opErr protocol = Panic UnknownOpPanic).
Proof.
  destruct opErr as [err|].
  - left.
    exists (le_bytes 4 (match err with
                        | Errno errno => neg_int32 (int32 errno)
                        | otherError _ => neg_int32 (int32 EIO)
                        end)), [].
    split; [reflexivity|].
    intros fuseID. rewrite kernelResponse_of_error. reflexivity.
  - destruct (recognised op) eqn:Hrec.
    + destruct (noResponse op) eqn:Hrep.
      * right. left. repeat split. intros fuseID.
        unfold kernelResponse.
        rewrite kernelResponseForOp_noResponse by assumption. reflexivity.
      * left.
        destruct (kernelResponseForOp_allocates op protocol Hrec Hrep)
          as (mem & l & Hb & -> & Hl).
        exists (load 4 4 mem), (skipn 16 mem). split.
        -- unfold load. rewrite length_firstn, length_skipn. lia.
        -- intros fuseID.
           rewrite (kernelResponse_of_buffer fuseID op protocol mem Hb Hl).
           rewrite length_skipn.
           replace (16 + (length mem - 16))%nat with (length mem) by lia.
           reflexivity.
    + right. right. repeat split. intros fuseID.
      unfold kernelResponse.
      rewrite kernelResponseForOp_unknown by assumption. reflexivity.
Qed.


(** X2: with a nil error, [kernelResponse] returns the nil response exactly
    for the Forget and the Interrupt ops: every other op that is recognised
    gets a frame, and no frame is ever made for these two. *)
Theorem nil_response_iff fuseID op protocol :
  kernelResponse fuseID op None protocol = Ok None <-> noResponse op = true.
Proof.
  split.
  - intros H.
    destruct (kernelResponse_uniform op None protocol)
      as [(e & payload & _ & Hf)|[(_ & Hrep & _)|(_ & _ & Hf)]].
    + rewrite Hf in H. discriminate.
    + exact Hrep.
    + rewrite Hf in H. discriminate.
  - intros Hrep. unfold kernelResponse.
    rewrite kernelResponseForOp_noResponse by assumption. reflexivity.
Qed.

(** X9: the request id reaches the Unique field and nothing else.  The
    frames returned for two ids, the op, the error and the protocol being
    the same, have the same length, the same first eight bytes (Len and
    Error) and the same payload. *)
Theorem id_only_reaches_unique fuseID fuseID' op opErr protocol frame :
  kernelResponse fuseID op opErr protocol = Ok (Some frame) ->
  exists frame',
    kernelResponse fuseID' op opErr protocol = Ok (Some frame')
    /\ length frame' = length frame
    /\ firstn 8 frame' = firstn 8 frame
    /\ body frame' = body frame.
Proof.
  intros H.
  destruct (kernelResponse_uniform op opErr protocol)
    as [(e & payload & He & Hf)|[(_ & _ & Hf)|(_ & _ & Hf)]];
    rewrite Hf in H; try discriminate.
  apply Ok_Some_inj in H. subst frame. eexists. split; [apply Hf|].
  split; [rewrite !length_frame by exact He; reflexivity|].
  unfold body. rewrite !body_of_frame by exact He.
  split; [|reflexivity].
  do 4 (destruct e as [|? e]; [discriminate He|]).
  destruct e; [reflexivity|discriminate He].
Qed.

(** X8: an error reply reads as a failure exactly when the low 32 bits of
    the errno are not zero.  For a syscall.Errno the Error field is zero if
    and only if the errno is zero modulo 2^32 (Errno(0) is a non-nil error
    that is answered like a success, without the payload); for an error of
    any other type it is never zero. *)
Theorem error_reply_reads_as_failure fuseID op err protocol :
  exists frame,
    kernelResponse fuseID op (Some err) protocol = Ok (Some frame)
    /\ match err with
       | Errno errno => Error (header frame) = 0 <-> uint32 errno = 0
       | otherError _ => Error (header frame) <> 0
       end.
Proof.
  rewrite kernelResponse_of_error. eexists. split; [reflexivity|].
  unfold header. rewrite decode_encode_OutHeader. cbn [fusekernel.Error].
  destruct err as [errno|message].
  - rewrite (int32_small (neg_int32 (int32 errno)))
      by (unfold neg_int32; apply int32_range).
    apply neg_int32_zero_iff.
  - discriminate.
Qed.

End Outcomes.

(** ** Replies to a nil error *)

Section Payloads.
Context {D : Deps}.

(** The encodings leave the header of their buffer zeroed: they write from
    offset sixteen on. *)
Lemma kernelResponseForOp_header_untouched (op : Op) (protocol : Protocol) :
  recognised op = true -> noResponse op = false ->
  exists mem,
    kernelResponseForOp op protocol = Ok (mkOutMessage (Some mem) (length mem))
    /\ (16 <= length mem)%nat
    /\ firstn 16 mem = zeros 16.
Proof.
  intros Hrec Hrep.
  destruct (kernelResponseForOp_allocates op protocol Hrec Hrep)
    as (mem & l & Hb & -> & Hl).
  exists mem. split; [exact Hb|]. split; [exact Hl|].
  revert Hb. clear Hl.
  destruct op; try discriminate;
    cbn [kernelResponseForOp];
    try destruct (convertExpirationTime _) as [AttrValid AttrValidNsec];
    run_buffer;
    intros Hb; injection Hb as <- _;
    rewrite ?firstn_store_ge by (cbn; lia);
    exact (firstn_zeros 16 _).
Qed.

(** X3: with a nil error, the frame of every op that is answered starts
    with the header whose Len is the length of the frame (as a uint32),
    whose Error is zero and whose Unique is the request's id: no encoding,
    and no conversion that fills a struct, reaches the header. *)
Theorem success_reply_header fuseID op protocol :
  recognised op = true -> noResponse op = false ->
  exists frame,
    kernelResponse fuseID op None protocol = Ok (Some frame)
    /\ firstn sizeof_OutHeader frame
       = encode_OutHeader {| Len := uint32 (Z.of_nat (length frame));
                             Error := 0;
                             Unique := fuseID |}
    /\ Error (header frame) = 0.
Proof.
  intros Hrec Hrep.
  destruct (kernelResponseForOp_header_untouched op protocol Hrec Hrep)
    as (mem & Hb & Hl & Hz).
  rewrite (kernelResponse_of_buffer fuseID op protocol mem Hb Hl).
  assert (He : load 4 4 mem = zeros 4).
  { rewrite <- (load_firstn 4 4 16 mem) by lia. rewrite Hz. reflexivity. }
  rewrite He. eexists. split; [reflexivity|].
  rewrite length_frame by reflexivity. rewrite length_skipn.
  replace (16 + (length mem - 16))%nat with (length mem) by lia.
  split; reflexivity.
Qed.

(** X7: with a nil error, the ops that have nothing to return (Rename,
    RmDir, Unlink, ReleaseDirHandle, SyncFile, FlushFile, ReleaseFileHandle)
    are answered with the bare header, Len 16 and Error 0; a ReadDir or a
    ReadFile of no bytes and a ReadSymlink of the empty target give the
    same frame. *)
Theorem empty_replies_are_the_bare_header fuseID protocol :
  Forall
    (fun op =>
       kernelResponse fuseID op None protocol
       = Ok (Some (encode_OutHeader {| Len := 16; Error := 0; Unique := fuseID |})))
    [RenameOp; RmDirOp; UnlinkOp; ReleaseDirHandleOp; SyncFileOp; FlushFileOp;
     ReleaseFileHandleOp; ReadDirOp []; ReadFileOp []; ReadSymlinkOp ""].
Proof. repeat constructor. Qed.

(** X4: with a nil error, the reply to OpenDir and to OpenFile is the header
    followed by an OpenOut of sixteen bytes: the handle in Fh, and zero in
    the open flags and the padding.  The handle read back from the body is
    the one the file system set. *)
Theorem open_replies_carry_the_handle fuseID Handle protocol :
  kernelResponse fuseID (OpenDirOp Handle) None protocol
  = Ok (Some (encode_OutHeader {| Len := 32; Error := 0; Unique := fuseID |}
              ++ le_bytes 8 (uint64 Handle) ++ zeros 8))
  /\ kernelResponse fuseID (OpenFileOp Handle) None protocol
     = Ok (Some (encode_OutHeader {| Len := 32; Error := 0; Unique := fuseID |}
                 ++ le_bytes 8 (uint64 Handle) ++ zeros 8))
  /\ le_value
       (load offsetof_OpenOut_Fh 8
          (body (encode_OutHeader {| Len := 32; Error := 0; Unique := fuseID |}
                 ++ le_bytes 8 (uint64 Handle) ++ zeros 8)))
     = uint64 Handle.
Proof.
  split; [reflexivity|]. split; [reflexivity|].
  replace (load offsetof_OpenOut_Fh 8 _) with (le_bytes 8 (uint64 Handle))
    by reflexivity.
  rewrite le_value_le_bytes_8. unfold uint64. apply Z.mod_mod. lia.
Qed.

(** X5: with a nil error, the reply to WriteFile is the header followed by a
    WriteOut of eight bytes whose Size is the length of the op's data, as a
    uint32, and whose padding is zero: the reply depends on the data only by
    its length, and Size reads back as that length below 2^32. *)
Theorem write_reply_reports_the_length fuseID Data protocol :
  kernelResponse fuseID (WriteFileOp Data) None protocol
  = Ok (Some (encode_OutHeader {| Len := 24; Error := 0; Unique := fuseID |}
              ++ le_bytes 4 (uint32 (Z.of_nat (length Data))) ++ zeros 4))
  /\ (Z.of_nat (length Data) < 2 ^ 32 ->
      le_value
        (load offsetof_WriteOut_Size 4
           (body (encode_OutHeader {| Len := 24; Error := 0; Unique := fuseID |}
                  ++ le_bytes 4 (uint32 (Z.of_nat (length Data))) ++ zeros 4)))
      = Z.of_nat (length Data)).
Proof.
  split; [reflexivity|]. intros Hfit.
  replace (load offsetof_WriteOut_Size 4 _)
    with (le_bytes 4 (uint32 (Z.of_nat (length Data)))) by reflexivity.
  rewrite le_value_le_bytes_4, uint32_idem. apply uint32_small. lia.
Qed.

(** X6: with a nil error, the body of the reply to CreateFile holds, right
    after the EntryOutSize(protocol) bytes of the entry, the handle of the
    op as the Fh of the OpenOut, whatever the conversion of the entry
    wrote. *)
Theorem create_reply_carries_the_handle fuseID Entry Handle protocol :
  exists frame,
    kernelResponse fuseID (CreateFileOp Entry Handle) None protocol
    = Ok (Some frame)
    /\ load (EntryOutSize protocol + offsetof_OpenOut_Fh) 8 (body frame)
       = le_bytes 8 (uint64 Handle)
    /\ le_value (load (EntryOutSize protocol + offsetof_OpenOut_Fh) 8 (body frame))
       = uint64 Handle.
Proof.
  edestruct (kernelResponse_body fuseID (CreateFileOp Entry Handle) protocol)
    as (frame & Hf & Hb & Hl);
    [ cbn [kernelResponseForOp]; run_buffer; reflexivity
    | buffer_lengths
    | lia
    | ].
  exists frame. split; [exact Hf|].
  assert (Hfh : load (EntryOutSize protocol + offsetof_OpenOut_Fh) 8 (body frame)
                = le_bytes 8 (uint64 Handle)).
  { rewrite Hb, load_skipn.
    match goal with
    | |- load _ _ (store ?off ?src ?mem) = _ =>
        pose proof (load_store_same off src mem) as Hs
    end.
    rewrite length_le_bytes in Hs.
    replace (16 + (EntryOutSize protocol + offsetof_OpenOut_Fh))%nat
      with (16 + EntryOutSize protocol + offsetof_OpenOut_Fh)%nat by lia.
    apply Hs. autorewrite with buffer_length.
    unfold offsetof_OpenOut_Fh, sizeof_OpenOut. lia. }
  split; [exact Hfh|].
  rewrite Hfh, le_value_le_bytes_8. unfold uint64. apply Z.mod_mod. lia.
Qed.

(** X10: with a nil error and an AttrOut of at least sixteen bytes, the
    replies to GetInodeAttributes and to SetInodeAttributes are the same
    frame, and its body starts with the expiration as converted by
    convertExpirationTime: the seconds in eight bytes, the nanoseconds in
    four, and four bytes of zero, whatever convertAttributes wrote after
    them. *)
Theorem attributes_reply_starts_with_the_expiration
    fuseID Inode Attributes AttributesExpiration protocol :
  (16 <= AttrOutSize protocol)%nat ->
  exists frame,
    kernelResponse fuseID
      (GetInodeAttributesOp Inode Attributes AttributesExpiration) None protocol
    = Ok (Some frame)
    /\ kernelResponse fuseID
         (SetInodeAttributesOp Inode Attributes AttributesExpiration) None protocol
       = Ok (Some frame)
    /\ load 0 16 (body frame)
       = le_bytes 8 (fst (convertExpirationTime AttributesExpiration))
         ++ le_bytes 4 (snd (convertExpirationTime AttributesExpiration))
         ++ zeros 4.
Proof.
  intros Hsize.
  edestruct (kernelResponse_body fuseID
               (GetInodeAttributesOp Inode Attributes AttributesExpiration) protocol)
    as (frame & Hf & Hb & Hl);
    [ cbn [kernelResponseForOp];
      rewrite (surjective_pairing (convertExpirationTime AttributesExpiration));
      run_buffer; cbv iota; run_buffer; reflexivity
    | buffer_lengths
    | lia
    | ].
  exists frame. split; [exact Hf|]. split; [exact Hf|].
  rewrite Hb, load_skipn.
  rewrite <- (load_firstn (16 + 0) 16 32) by lia.
  rewrite firstn_store_ge by (unfold offsetof_AttrOut_Attr; lia).
  destruct (Nat.le_exists_sub 16 (AttrOutSize protocol) Hsize) as (k & -> & _).
  replace (16 + (k + 16))%nat with (32 + k)%nat by lia.
  rewrite zeros_app.
  rewrite (store_app_l (16 + offsetof_AttrOut_AttrValid))
    by (rewrite length_le_bytes, length_zeros;
        unfold offsetof_AttrOut_AttrValid; lia).
  rewrite (store_app_l (16 + offsetof_AttrOut_AttrValidNsec))
    by (rewrite length_store, length_le_bytes, length_zeros;
        unfold offsetof_AttrOut_AttrValidNsec; lia).
  rewrite firstn_app, length_store, length_store, length_zeros, Nat.sub_diag.
  rewrite firstn_O, app_nil_r.
  reflexivity.
Qed.

End Payloads.

(** * Reading back the reports (flush_fs_test.go) *)

Section ReportsFacts.
Import flush_fs_test.

Lemma eqb_newline_false b : b <> newline -> Byte.eqb b newline = false.
Proof.
  intros Hb. destruct (Byte.eqb b newline) eqn:E; [|reflexivity].
  apply Byte.byte_dec_bl in E. contradiction.
Qed.

(** A record and its newline are read in one piece. *)
Lemma ReadBytes_record record rest last :
  ~ In newline record ->
  ReadBytes newline (record ++ newline :: rest) last
  = (record ++ [newline], None, rest).
Proof.
  induction record as [|b record IH]; intros Hnl.
  - reflexivity.
  - cbn [app ReadBytes].
    rewrite eqb_newline_false by (intros ->; apply Hnl; left; reflexivity).
    rewrite IH by (intros H; apply Hnl; right; exact H). reflexivity.
Qed.

(** Without a newline, the read runs into the error that ends the file. *)
Lemma ReadBytes_tail tail last :
  ~ In newline tail -> ReadBytes newline tail last = (tail, Some last, []).
Proof.
  induction tail as [|b tail IH]; intros Hnl.
  - reflexivity.
  - cbn [ReadBytes].
    rewrite eqb_newline_false by (intros ->; apply Hnl; left; reflexivity).
    rewrite IH by (intros H; apply Hnl; right; exact H). reflexivity.
Qed.

Lemma firstn_strip record : firstn (length (record ++ [newline]) - 1) (record ++ [newline]) = record.
Proof.
  rewrite length_app. cbn [length]. rewrite Nat.add_sub.
  rewrite firstn_app, Nat.sub_diag, firstn_O, app_nil_r. apply firstn_all.
Qed.

(** One turn of the loop per record. *)
Lemma readLoop_records records :
  Forall (fun record => ~ In newline record) records ->
  forall fuel tail last reports,
    readLoop (length records + fuel) (lines records ++ tail) last reports
    = readLoop fuel tail last (reports ++ map string_of_list_byte records).
Proof.
  induction 1 as [|record records Hnl _ IH]; intros fuel tail last reports.
  - cbn. rewrite app_nil_r. reflexivity.
  - unfold lines. cbn [map concat length Nat.add readLoop].
    rewrite <- !app_assoc. cbn [app].
    rewrite ReadBytes_record by exact Hnl.
    rewrite firstn_strip.
    fold (lines records). rewrite IH. rewrite <- app_assoc. reflexivity.
Qed.

(** The last turn: on what follows the last newline. *)
Lemma readLoop_tail fuel tail last reports :
  ~ In newline tail ->
  readLoop (S fuel) tail last reports
  = match last with
    | EOF =>
        match tail with
        | [] => Some (inl reports)
        | _ :: _ => Some (inr (UnexpectedRecord tail))
        end
    | otherReadError e => Some (inr (ReadBytesFailed e))
    end.
Proof.
  intros Hnl. cbn [readLoop]. rewrite ReadBytes_tail by exact Hnl.
  destruct last; [|reflexivity]. destruct tail; reflexivity.
Qed.

Lemma length_lines records : (length records <= length (lines records))%nat.
Proof.
  induction records as [|record records IH]; [apply Nat.le_refl|].
  unfold lines in *. cbn [map concat length].
  rewrite !length_app. cbn [length]. lia.
Qed.

(** Every sequence of bytes is a sequence of records, each closed by its
    newline, followed by what comes after the last newline. *)
Lemma split_lines (input : list byte) :
  exists records tail,
    input = lines records ++ tail
    /\ Forall (fun record => ~ In newline record) records
    /\ ~ In newline tail.
Proof.
  induction input as [|b input (records & tail & -> & Hrec & Htail)].
  - exists [], []. repeat split; [constructor | intros []].
  - destruct (Byte.byte_eq_dec b newline) as [->|Hb].
    + exists ([] :: records), tail. repeat split; [|exact Htail].
      constructor; [intros []|exact Hrec].
    + destruct records as [|record records].
      * exists [], (b :: tail). repeat split; [constructor|].
        intros [H|H]; [congruence|contradiction].
      * exists ((b :: record) :: records), tail. repeat split; [|exact Htail].
        inversion Hrec as [|? ? Hr Hrs]; subst.
        constructor; [|exact Hrs].
        intros [H|H]; [congruence|contradiction].
Qed.

(** What [readReports] returns for a file that is written as records and a
    tail. *)
Lemma readReports_of_lines f records tail :
  seekError f = None ->
  contents f = lines records ++ tail ->
  Forall (fun record => ~ In newline record) records ->
  ~ In newline tail ->
  readReports f
  = match lastError f with
    | EOF =>
        match tail with
        | [] => Some (inl (map string_of_list_byte records))
        | _ :: _ => Some (inr (UnexpectedRecord tail))
        end
    | otherReadError e => Some (inr (ReadBytesFailed e))
    end.
Proof.
  intros Hseek Hc Hrec Htail. unfold readReports. rewrite Hseek, Hc.
  pose proof (length_lines records) as Hlen.
  replace (S (length (lines records ++ tail)))
    with (length records + S (length (lines records ++ tail) - length records))%nat
    by (rewrite length_app; lia).
  rewrite readLoop_records by exact Hrec.
  rewrite readLoop_tail by exact Htail. reflexivity.
Qed.

Lemma Some_inl_inj {A B : Type} (a b : A) :
  Some (@inl A B a) = Some (inl b) -> a = b.
Proof. intros H. injection H as H. exact H. Qed.

Lemma map_bytes_of_strings records :
  map list_byte_of_string (map string_of_list_byte records) = records.
Proof.
  rewrite map_map. rewrite <- (map_id records) at 2.
  apply map_ext. intros record. apply list_byte_of_string_of_list_byte.
Qed.

Lemma map_strings_of_bytes reports :
  map string_of_list_byte (map list_byte_of_string reports) = reports.
Proof.
  rewrite map_map. rewrite <- (map_id reports) at 2.
  apply map_ext. intros report. apply string_of_list_byte_of_string.
Qed.

(** X11: reports that hold no newline, written to a file each followed
    by a newline, are read back by [readReports] as they were, in order. *)
Theorem reports_round_trip (reports : list string) :
  Forall (fun report => ~ In newline (list_byte_of_string report)) reports ->
  readReports (reportsFile reports) = Some (inl reports).
Proof.
  intros Hnl.
  rewrite (readReports_of_lines (reportsFile reports)
             (map list_byte_of_string reports) []).
  - cbn [lastError reportsFile]. rewrite map_strings_of_bytes. reflexivity.
  - reflexivity.
  - cbn [contents reportsFile]. rewrite app_nil_r. reflexivity.
  - apply Forall_map. exact Hnl.
  - intros [].
Qed.

(** X12: when [readReports] returns reports, the seek has succeeded, the
    reads have ended with io.EOF, and the file holds exactly these reports,
    each followed by a newline and none with a newline inside: nothing in
    the file is skipped and a file that does not end in a newline is not
    accepted. *)
Theorem reports_are_the_whole_file (f : File) (reports : list string) :
  readReports f = Some (inl reports) ->
  seekError f = None
  /\ lastError f = EOF
  /\ contents f = lines (map list_byte_of_string reports)
  /\ Forall (fun report => ~ In newline (list_byte_of_string report)) reports.
Proof.
  intros H.
  destruct (seekError f) as [err|] eqn:Hseek;
    [unfold readReports in H; rewrite Hseek in H; discriminate|].
  destruct (split_lines (contents f)) as (records & tail & Hc & Hrec & Htail).
  rewrite (readReports_of_lines f records tail Hseek Hc Hrec Htail) in H.
  destruct (lastError f); [|discriminate].
  destruct tail; [|discriminate].
  apply Some_inl_inj in H. subst reports. rewrite map_bytes_of_strings.
  rewrite app_nil_r in Hc.
  repeat split; [exact Hc|].
  apply Forall_map. apply (Forall_impl _ (P := fun record => ~ In newline record));
    [|exact Hrec].
  intros record Hr. rewrite list_byte_of_string_of_list_byte. exact Hr.
Qed.

(** X13: a file whose last bytes are not closed by a newline is refused:
    after any number of complete reports, a non-empty tail without a newline
    makes [readReports] fail with the unexpected record, which is that tail,
    and the reports read before it are not returned. *)
Theorem unfinished_record_is_refused (reports : list string) (tail : list byte) :
  Forall (fun report => ~ In newline (list_byte_of_string report)) reports ->
  ~ In newline tail ->
  tail <> [] ->
  readReports
    {| seekError := None;
       contents := lines (map list_byte_of_string reports) ++ tail;
       lastError := EOF |}
  = Some (inr (UnexpectedRecord tail)).
Proof.
  intros Hnl Htail Hne.
  rewrite (readReports_of_lines _ (map list_byte_of_string reports) tail);
    [ | reflexivity | reflexivity | apply Forall_map; exact Hnl | exact Htail ].
  cbn [lastError]. destruct tail; [contradiction|reflexivity].
Qed.

(** X14: [readReports] returns for every file: its loop ends within one
    turn per newline and one more.  A failure of the seek is reported before
    anything is read, and a read that ends with an error other than io.EOF
    is reported as such, whatever was read before it. *)
Theorem readReports_returns (f : File) :
  exists result,
    readReports f = Some result
    /\ (forall err, seekError f = Some err -> result = inr (SeekFailed err))
    /\ (forall err,
          seekError f = None -> lastError f = otherReadError err ->
          result = inr (ReadBytesFailed err)).
Proof.
  destruct (seekError f) as [err|] eqn:Hseek.
  - exists (inr (SeekFailed err)). unfold readReports. rewrite Hseek.
    repeat split; [|discriminate]. intros err' H. congruence.
  - destruct (split_lines (contents f)) as (records & tail & Hc & Hrec & Htail).
    rewrite (readReports_of_lines f records tail Hseek Hc Hrec Htail).
    destruct (lastError f) as [|e].
    + destruct tail; eexists; (repeat split; [discriminate|discriminate]).
    + eexists. repeat split; [discriminate|]. intros err _ H. congruence.
Qed.

End ReportsFacts.

(** * The further properties on concrete inputs *)

Section MoreExamples.
Import Sample flush_fs_test.

(** OpenDir answered with handle 7, request 3: the header has error zero. *)
Lemma success_reply_header_witness :
  exists frame,
    kernelResponse 3 (OpenDirOp 7) None v7_23 = Ok (Some frame)
    /\ firstn sizeof_OutHeader frame
       = encode_OutHeader {| Len := uint32 (Z.of_nat (length frame));
                             Error := 0;
                             Unique := 3 |}
    /\ Error (header frame) = 0.
Proof.
  apply (success_reply_header 3 (OpenDirOp 7) v7_23); reflexivity.
Defined.

(** The same read answered to the requests 258 and 259. *)
Lemma id_only_reaches_unique_witness :
  exists frame',
    kernelResponse 259 (ReadFileOp [x01; x02]) None v7_23 = Ok (Some frame')
    /\ length frame' = 18%nat
    /\ firstn 8 frame' = [x12; x00; x00; x00; x00; x00; x00; x00]
    /\ body frame' = [x01; x02].
Proof.
  exact (id_only_reaches_unique 258 259 (ReadFileOp [x01; x02]) None v7_23
           [x12; x00; x00; x00; x00; x00; x00; x00;
            x02; x01; x00; x00; x00; x00; x00; x00; x01; x02]
           eq_refl).
Defined.

(** Attributes of inode 17 that expire at second 5, protocol 7.8 (an
    AttrOut of 96 bytes). *)
Lemma attributes_reply_starts_with_the_expiration_witness :
  exists frame,
    kernelResponse 4 (@GetInodeAttributesOp deps 17 4096 5) None v7_8 = Ok (Some frame)
    /\ kernelResponse 4 (@SetInodeAttributesOp deps 17 4096 5) None v7_8 = Ok (Some frame)
    /\ load 0 16 (body frame)
       = [x05; x00; x00; x00; x00; x00; x00; x00;
          x00; x00; x00; x00; x00; x00; x00; x00].
Proof.
  apply (@attributes_reply_starts_with_the_expiration deps 4 17 4096 5 v7_8).
  vm_compute. lia.
Defined.

Lemma no_newline_in_flush : ~ In newline (list_byte_of_string "flush"%string).
Proof. vm_compute. intros H. repeat (destruct H as [H|H]; [discriminate H|]). exact H. Defined.

Lemma no_newline_in_empty : ~ In newline (list_byte_of_string ""%string).
Proof. intros []. Defined.

(** Two reports, the second one empty. *)
Lemma reports_round_trip_witness :
  readReports (reportsFile ["flush"%string; ""%string]) = Some (inl ["flush"%string; ""%string]).
Proof.
  apply (reports_round_trip ["flush"%string; ""%string]).
  repeat constructor; [exact no_newline_in_flush|exact no_newline_in_empty].
Defined.

(** The file of the bytes "flush"%string, newline, newline. *)
Lemma reports_are_the_whole_file_witness :
  seekError (reportsFile ["flush"%string; ""%string]) = None
  /\ lastError (reportsFile ["flush"%string; ""%string]) = EOF
  /\ contents (reportsFile ["flush"%string; ""%string])
     = lines (map list_byte_of_string ["flush"%string; ""%string])
  /\ Forall (fun report => ~ In newline (list_byte_of_string report)) ["flush"%string; ""%string].
Proof.
  apply (reports_are_the_whole_file (reportsFile ["flush"%string; ""%string]) ["flush"%string; ""%string]).
  reflexivity.
Defined.

(** One report, then the byte "x" and the end of the file. *)
Lemma unfinished_record_is_refused_witness :
  readReports
    {| seekError := None;
       contents := lines (map list_byte_of_string ["flush"%string]) ++ [x78];
       lastError := EOF |}
  = Some (inr (UnexpectedRecord [x78])).
Proof.
  apply (unfinished_record_is_refused ["flush"%string] [x78]).
  - repeat constructor. exact no_newline_in_flush.
  - intros [H|[]]. discriminate H.
  - discriminate.
Defined.

End MoreExamples.
